(** * The Login form component (src/Login.jsx): a shallow embedding

    The component keeps a three-field state object in a [useReducer] cell,
    renders a form, and on submit issues one [fetch] whose settlement is
    handled by two callbacks.  The embedding follows the source line by line:

    - JavaScript values, property access, truthiness and the two built-in
      conversions the handler relies on ([ToString] inside
      [Storage.setItem], [JSON.stringify] for the request body);
    - the reducer [(s, a) => ({...s, ...a})] as a left-biased map union;
    - the handler as a program in a small state-and-exception monad over
      the component state, [window.localStorage] and a trace of the host
      calls it makes;
    - the promise chain as a function on settled promises;
    - the returned JSX as a tree. *)

From Stdlib Require Import Ascii String.
From stdpp Require Import gmap strings pretty list.

Set Warnings "-register-all".

Open Scope string_scope.

(** ** JavaScript values *)

(** What [JSON.parse] can produce.  A number is modelled by an integer
    (integers of the safe range, where the decimal rendering below is the
    one of the language); an object lists its own properties in property
    order and a lookup finds the first binding of a key. *)
Inductive JSON : Type :=
  | JNull
  | JBool (b : bool)
  | JNum (z : Z)
  | JStr (s : string)
  | JArr (items : list JSON)
  | JObj (fields : list (string * JSON)).

(** The values the handler manipulates: [undefined], JSON data, and the
    error objects thrown by the host or the language (the [name] of the
    constructor and the [message] property). *)
Inductive jsval : Type :=
  | VUndefined
  | VJson (j : JSON)
  | VError (name message : string).

Coercion VJson : JSON >-> jsval.

Definition VNull : jsval := VJson JNull.
Definition VBool (b : bool) : jsval := VJson (JBool b).
Definition VStr (s : string) : jsval := VJson (JStr s).

(** The integers a number of the language holds exactly and prints in
    plain decimal: [Number.MAX_SAFE_INTEGER] and its opposite bound them.
    A value is [safe] when every number in it is in that range; the
    conversions of numbers to text below are those of the language on
    safe values, and the statements that depend on them assume it. *)
Definition MAX_SAFE_INTEGER : Z := 9007199254740991.

Fixpoint safe (j : JSON) : bool :=
  match j with
  | JNum z => (- MAX_SAFE_INTEGER <=? z)%Z && (z <=? MAX_SAFE_INTEGER)%Z
  | JArr items => forallb safe items
  | JObj fields => forallb (fun kv => safe (snd kv)) fields
  | _ => true
  end.

Definition safeValue (v : jsval) : bool :=
  match v with
  | VJson j => safe j
  | _ => true
  end.

(** The result of evaluating an expression or a statement list. *)
Inductive completion (A : Type) : Type :=
  | Normal (a : A)
  | Throw (e : jsval).
Arguments Normal {A} a.
Arguments Throw {A} e.

(** First binding of [k] in a property list. *)
Fixpoint assoc (k : string) (fields : list (string * JSON)) : option JSON :=
  match fields with
  | [] => None
  | (k', v) :: rest => if String.eqb k k' then Some v else assoc k rest
  end.

(** [v.k] for the property names the handler reads ([message], [token]):
    a TypeError on [undefined] and [null]; the [message] of an error
    object; the own property of a parsed object; [undefined] on every
    other value, none of whose prototypes defines these names. *)
Definition get_prop (v : jsval) (k : string) : completion jsval :=
  match v with
  | VUndefined =>
      Throw (VError "TypeError" ("Cannot read properties of undefined (reading '" ++ k ++ "')"))
  | VJson JNull =>
      Throw (VError "TypeError" ("Cannot read properties of null (reading '" ++ k ++ "')"))
  | VJson (JObj fields) =>
      Normal (match assoc k fields with Some x => VJson x | None => VUndefined end)
  | VJson _ => Normal VUndefined
  | VError _ m => Normal (if String.eqb k "message" then VStr m else VUndefined)
  end.

(** ToBoolean, as used by [c ? a : b]. *)
Definition truthy (v : jsval) : bool :=
  match v with
  | VUndefined => false
  | VJson JNull => false
  | VJson (JBool b) => b
  | VJson (JNum z) => negb (z =? 0)%Z
  | VJson (JStr s) => negb (String.eqb s "")
  | VJson (JArr _) | VJson (JObj _) => true
  | VError _ _ => true
  end.

(** Strings joined with a separator, as [Array.prototype.join] does. *)
Fixpoint join (sep : string) (parts : list string) : string :=
  match parts with
  | [] => ""
  | [p] => p
  | p :: rest => p ++ sep ++ join sep rest
  end.

(** ToString on parsed data.  [None] is a TypeError: an object whose own
    [toString] property shadows [Object.prototype.toString] has no
    callable conversion left.  An array renders as its elements joined by
    commas, [null] elements as the empty string. *)
Fixpoint ToString_json (j : JSON) : option string :=
  match j with
  | JNull => Some "null"
  | JBool true => Some "true"
  | JBool false => Some "false"
  | JNum z => Some (pretty z)
  | JStr s => Some s
  | JArr items =>
      let fix elements (l : list JSON) : option (list string) :=
        match l with
        | [] => Some []
        | x :: rest =>
            match (match x with JNull => Some "" | _ => ToString_json x end),
                  elements rest with
            | Some s, Some ss => Some (s :: ss)
            | _, _ => None
            end
        end in
      match elements items with
      | Some ss => Some (join "," ss)
      | None => None
      end
  | JObj fields =>
      match assoc "toString" fields with
      | Some _ => None
      | None => Some "[object Object]"
      end
  end.

Definition ToString (v : jsval) : completion string :=
  match v with
  | VUndefined => Normal "undefined"
  | VJson j =>
      match ToString_json j with
      | Some s => Normal s
      | None => Throw (VError "TypeError" "Cannot convert object to primitive value")
      end
  | VError name m =>
      Normal (if String.eqb name "" then m
              else if String.eqb m "" then name
              else name ++ ": " ++ m)
  end.

(** ** [JSON.stringify] *)

Definition hex_digit (n : N) : ascii :=
  match String.get (N.to_nat n) "0123456789abcdef" with
  | Some c => c
  | None => "0"%char
  end.

(** One code unit of a quoted JSON string: the two-character escapes, a
    [\u00XX] escape for the remaining control characters, the character
    itself otherwise. *)
Definition escape_char (c : ascii) : string :=
  let n := N_of_ascii c in
  if (n =? 8)%N then "\b"
  else if (n =? 9)%N then "\t"
  else if (n =? 10)%N then "\n"
  else if (n =? 12)%N then "\f"
  else if (n =? 13)%N then "\r"
  else if (n =? 34)%N then String "\"%char (String c "")
  else if (n =? 92)%N then "\\"
  else if (n <? 32)%N then
    "\u00" ++ String (hex_digit (n / 16)) (String (hex_digit (n mod 16)) "")
  else String c "".

Fixpoint escape (s : string) : string :=
  match s with
  | EmptyString => ""
  | String c rest => escape_char c ++ escape rest
  end.

Definition dquote : string := String (ascii_of_N 34) "".

Definition QuoteJSONString (s : string) : string := dquote ++ escape s ++ dquote.

Fixpoint JSON_stringify (j : JSON) : string :=
  match j with
  | JNull => "null"
  | JBool true => "true"
  | JBool false => "false"
  | JNum z => pretty z
  | JStr s => QuoteJSONString s
  | JArr items => "[" ++ join "," (map JSON_stringify items) ++ "]"
  | JObj fields =>
      "{" ++ join "," (map (fun kv => QuoteJSONString (fst kv) ++ ":" ++ JSON_stringify (snd kv)) fields) ++ "}"
  end.

(** ** The host: requests, responses, storage, and the trace of calls *)

Record Request := {
  url : string;
  method : string;
  headers : list (string * string);
  body : string;
}.

(** A promise once it has settled. *)
Inductive settled (A : Type) : Type :=
  | Fulfilled (a : A)
  | Rejected (reason : jsval).
Arguments Fulfilled {A} a.
Arguments Rejected {A} reason.

(** What the handler uses of a [Response]: the [ok] flag and the
    settlement of [r.json()], fulfilled with the parsed body or rejected
    with the parser's error. *)
Record Response := {
  ok : bool;
  json : settled JSON;
}.

(** The calls the component makes to the outside, in the order made. *)
Inductive HostCall : Type :=
  | PreventDefault
  | SetState (action : gmap string jsval)
  | Fetch (req : Request)
  | SetItem (key value : string).

Record World := {
  state : gmap string jsval;          (* the useReducer cell *)
  localStorage : gmap string string;  (* window.localStorage *)
  inflight : nat;                     (* requests issued and not yet settled *)
  trace : list HostCall;
}.

(** ** The state-and-exception monad of handler code *)

Definition M (A : Type) : Type := World → completion A * World.

#[export] Instance M_ret : MRet M := λ A a w, (Normal a, w).
#[export] Instance M_bind : MBind M := λ A B f m w,
  match m w with
  | (Normal a, w') => f a w'
  | (Throw e, w') => (Throw e, w')
  end.

Definition lift {A} (c : completion A) : M A := λ w, (c, w).

Definition call (c : HostCall) : M () := λ w,
  (Normal (), {| state := state w; localStorage := localStorage w;
                 inflight := inflight w; trace := trace w ++ [c] |}).

Definition exec {A} (m : M A) (w : World) : World := snd (m w).

(** ** The component *)

(** [(s, a) => ({...s, ...a})]: the properties of [a] over those of [s]. *)
Definition reducer (s a : gmap string jsval) : gmap string jsval := a ∪ s.

(** The second argument of [React.useReducer]. *)
Definition initialState : gmap string jsval :=
  {[ "resolved" := VBool false; "loading" := VBool false; "error" := VNull ]}.

(** [state.k]: reading a property the object lacks gives [undefined]. *)
Definition field (s : gmap string jsval) (k : string) : jsval :=
  default VUndefined (s !! k).

(** The dispatch function returned by [useReducer]. *)
Definition setState (a : gmap string jsval) : M () := λ w,
  (Normal (), {| state := reducer (state w) a; localStorage := localStorage w;
                 inflight := inflight w; trace := trace w ++ [SetState a] |}).

Definition preventDefault : M () := call PreventDefault.

(** [window.fetch(url, init)]: the request leaves; the promise it returns
    is settled later by the environment. *)
Definition fetch (req : Request) : M () := λ w,
  (Normal (), {| state := state w; localStorage := localStorage w;
                 inflight := S (inflight w); trace := trace w ++ [Fetch req] |}).

(** [window.localStorage.setItem(key, value)]: the value is converted to
    a string, then stored. *)
Definition store (key s : string) : M () := λ w,
  (Normal (), {| state := state w; localStorage := <[key := s]> (localStorage w);
                 inflight := inflight w; trace := trace w ++ [SetItem key s] |}).

Definition localStorage_setItem (key : string) (value : jsval) : M () :=
  s ← lift (ToString value);
  store key s.

(** The form's two inputs, as [event.target.elements] names them.  The
    form is the one the component renders, so both are always there, and
    the value of an input is a string. *)
Record HTMLInputElement := { value : string }.
Record SubmitEvent := {
  usernameInput : HTMLInputElement;
  passwordInput : HTMLInputElement;
}.

(** The three objects passed to [setState]. *)
Definition loadingAction : gmap string jsval :=
  {[ "loading" := VBool true; "resolved" := VBool false; "error" := VNull ]}.
Definition successAction : gmap string jsval :=
  {[ "loading" := VBool false; "resolved" := VBool true; "error" := VNull ]}.
Definition failureAction (message : jsval) : gmap string jsval :=
  {[ "loading" := VBool false; "resolved" := VBool false; "error" := message ]}.

Definition loginRequest (event : SubmitEvent) : Request :=
  {| url := "http://localhost:3000/api/login";
     method := "POST";
     headers := [("Content-Type", "application/json")];
     body := JSON_stringify (JObj [("username", JStr (value (usernameInput event)));
                                   ("password", JStr (value (passwordInput event)))]) |}.

(** The synchronous part of [handleSubmit]: up to and including the call
    of [fetch]. *)
Definition handleSubmit (event : SubmitEvent) : M () :=
  preventDefault;;
  setState loadingAction;;
  fetch (loginRequest event).

(** [r => r.json().then(data => (r.ok ? data : Promise.reject(data)))] *)
Definition unwrap (r : Response) : settled JSON :=
  match json r with
  | Fulfilled data => if ok r then Fulfilled data else Rejected (VJson data)
  | Rejected e => Rejected e
  end.

(** [user => { setState(...); window.localStorage.setItem('token', user.token) }] *)
Definition onUser (user : JSON) : M () :=
  setState successAction;;
  token ← lift (get_prop user "token");
  localStorage_setItem "token" token.

(** [error => { setState({..., error: error.message}) }]: the argument
    object is evaluated, so [error.message] is read, before [setState]
    is called. *)
Definition onError (error : jsval) : M () :=
  message ← lift (get_prop error "message");
  setState (failureAction message).

(** [p.then(f)] for a callback returning a promise. *)
Definition then_chain {A B} (p : settled A) (f : A → settled B) : settled B :=
  match p with
  | Fulfilled a => f a
  | Rejected e => Rejected e
  end.

(** [p.then(f, g)] for callbacks with effects: the promise returned is
    fulfilled when the callback returns and rejected with what it throws;
    the call itself never throws. *)
Definition then_ {A} (p : settled A) (f : A → M ()) (g : jsval → M ()) : M (settled ()) := λ w,
  let '(c, w') := match p with Fulfilled a => f a w | Rejected e => g e w end in
  (Normal (match c with Normal _ => Fulfilled () | Throw e => Rejected e end), w').

(** The asynchronous part of [handleSubmit]: the promise of [fetch]
    settles, fulfilled with a response or rejected (no response at all),
    and the chain of the two [then] calls runs.  Only the callbacks of the
    second [then] have effects, and they run in one job, so the chain is
    one step. *)
Definition settle (outcome : settled Response) : M (settled ()) := λ w,
  then_ (then_chain outcome unwrap) onUser onError
    {| state := state w; localStorage := localStorage w;
       inflight := pred (inflight w); trace := trace w |}.

(** One submission on its own: the handler, then the settlement. *)
Definition submitFlow (event : SubmitEvent) (outcome : settled Response) (w : World) : World :=
  exec (settle outcome) (exec (handleSubmit event) w).

(** ** The rendered tree *)

Inductive PropValue : Type :=
  | PString (s : string)
  | PCallback (name : string).

(** A JSX node: literal text, an embedded expression [{v}], or an
    element. *)
Inductive JSX : Type :=
  | Text (s : string)
  | Expr (v : jsval)
  | Element (tag : string) (props : list (string * PropValue)) (children : list JSX).

(** What [Login] returns for the current [state]. *)
Definition Login (s : gmap string jsval) : JSX :=
  Element "div" []
    [ Element "form" [("onSubmit", PCallback "handleSubmit")]
        [ Element "div" []
            [ Element "label" [("htmlFor", PString "usernameInput")] [Text "Username"];
              Element "input" [("id", PString "usernameInput")] [] ];
          Element "div" []
            [ Element "label" [("htmlFor", PString "passwordInput")] [Text "Password"];
              Element "input" [("id", PString "passwordInput"); ("type", PString "password")] [] ];
          Element "button" [("type", PString "submit")]
            [ Text "Submit";
              Expr (if truthy (field s "loading") then VStr "..." else VNull) ] ];
      (if truthy (field s "error")
       then Element "div" [("role", PString "alert")] [Expr (field s "error")]
       else Expr VNull);
      (if truthy (field s "resolved")
       then Element "div" [("role", PString "alert")] [Text "Congrats! You're signed in!"]
       else Expr VNull) ].

Definition has_role (role : string) (props : list (string * PropValue)) : bool :=
  existsb (fun p => match p with
                    | (k, PString r) => String.eqb k "role" && String.eqb r role
                    | _ => false
                    end) props.

(** The elements of a tree whose [role] attribute is the given role, in
    document order. *)
Fixpoint getAllByRole (role : string) (t : JSX) : list JSX :=
  match t with
  | Element tag props children =>
      (if has_role role props then [t] else []) ++ flat_map (getAllByRole role) children
  | _ => []
  end.

(** The three parts of the view that depend on the state. *)
Definition loadingIndicator (s : gmap string jsval) : bool := truthy (field s "loading").
Definition errorAlert (s : gmap string jsval) : bool := truthy (field s "error").
Definition successAlert (s : gmap string jsval) : bool := truthy (field s "resolved").

(** ** Runs of the component *)

(** The component as mounted: the reducer cell holds [initialState],
    whatever the storage holds. *)
Definition mount (storage : gmap string string) : World :=
  {| state := initialState; localStorage := storage; inflight := 0; trace := [] |}.

(** What happens to a mounted component: the user submits the form, or
    the environment settles a request. *)
Inductive Input : Type :=
  | Submit (event : SubmitEvent)
  | Settle (outcome : settled Response).

(** A settlement needs a request in flight; without one it does not
    occur and the world stays as it is. *)
Definition react (i : Input) (w : World) : World :=
  match i with
  | Submit event => exec (handleSubmit event) w
  | Settle outcome =>
      match inflight w with
      | 0 => w
      | S _ => exec (settle outcome) w
      end
  end.

Fixpoint run (inputs : list Input) (w : World) : World :=
  match inputs with
  | [] => w
  | i :: rest => run rest (react i w)
  end.

Definition reachable (w : World) : Prop :=
  ∃ storage inputs, w = run inputs (mount storage).

(** The requests and the storage keys in a trace, in order. *)
Definition requests (t : list HostCall) : list Request :=
  omap (λ c, match c with Fetch req => Some req | _ => None end) t.
Definition storageKeys (t : list HostCall) : list string :=
  omap (λ c, match c with SetItem key _ => Some key | _ => None end) t.
Definition submissions (inputs : list Input) : list SubmitEvent :=
  omap (λ i, match i with Submit event => Some event | _ => None end) inputs.

(** ** Outcomes and conditions on the state *)

Definition successState (s : gmap string jsval) : Prop :=
  field s "loading" = VBool false ∧ field s "resolved" = VBool true ∧ field s "error" = VNull.
Definition failureState (message : jsval) (s : gmap string jsval) : Prop :=
  field s "loading" = VBool false ∧ field s "resolved" = VBool false ∧ field s "error" = message.
Definition loadingState (s : gmap string jsval) : Prop :=
  field s "loading" = VBool true ∧ field s "resolved" = VBool false ∧ field s "error" = VNull.

(** The three conditions: [loading === true], [resolved === true],
    [error != null] (neither [null] nor [undefined]). *)
Definition isLoading (s : gmap string jsval) : bool :=
  match field s "loading" with VJson (JBool true) => true | _ => false end.
Definition isResolved (s : gmap string jsval) : bool :=
  match field s "resolved" with VJson (JBool true) => true | _ => false end.
Definition hasError (s : gmap string jsval) : bool :=
  match field s "error" with VUndefined | VJson JNull => false | _ => true end.

Definition countTrue (bs : list bool) : nat := length (List.filter id bs).

Definition conditions (s : gmap string jsval) : list bool :=
  [isLoading s; isResolved s; hasError s].
Definition indicators (s : gmap string jsval) : list bool :=
  [loadingIndicator s; successAlert s; errorAlert s].

(** ** Sample data: the scenarios of test/login.spec.jsx *)

Definition chuck : SubmitEvent :=
  {| usernameInput := {| value := "chuck" |}; passwordInput := {| value := "norris" |} |}.

Definition validResponse : Response :=
  {| ok := true; json := Fulfilled (JObj [("token", JStr "fake_user_token")]) |}.

Definition serverException : Response :=
  {| ok := false; json := Fulfilled (JObj [("message", JStr "Internal server error")]) |}.

(** Responses outside the two test scenarios. *)
Definition nullBody : Response :=
  {| ok := false; json := Fulfilled JNull |}.
Definition malformedBody : Response :=
  {| ok := true; json := Rejected (VError "SyntaxError" "Unexpected end of JSON input") |}.
Definition emptyMessage : Response :=
  {| ok := false; json := Fulfilled (JObj [("message", JStr "")]) |}.
Definition noMessage : Response :=
  {| ok := false; json := Fulfilled (JObj []) |}.
Definition nullUser : Response :=
  {| ok := true; json := Fulfilled JNull |}.
Definition objectMessage : Response :=
  {| ok := false; json := Fulfilled (JObj [("message", JObj [("code", JNum 42)])]) |}.

(** The world with another state object in the reducer cell. *)
Definition withState (s : gmap string jsval) (w : World) : World :=
  {| state := s; localStorage := localStorage w; inflight := inflight w; trace := trace w |}.

(** The invariant of the reducer cell: the fields are those of one of the
    three updates (the initial object has the fields of a failure with a
    [null] message). *)
Definition flowInv (s : gmap string jsval) : Prop :=
  loadingState s ∨ successState s ∨ ∃ m, failureState m s.

(** ** Queries on the rendered tree *)

(** The elements of a tree with the given tag, in document order. *)
Fixpoint getAllByTag (name : string) (t : JSX) : list JSX :=
  match t with
  | Element tag props children =>
      (if String.eqb tag name then [t] else []) ++ flat_map (getAllByTag name) children
  | _ => []
  end.

(** [getByRole]: the one element with the role; the query fails when
    there is none or more than one. *)
Definition getByRole (role : string) (t : JSX) : option JSX :=
  match getAllByRole role t with
  | [e] => Some e
  | _ => None
  end.

(** The text an embedded expression renders as: a string as itself, a
    (safe) number in decimal, nothing for [null], [undefined] and
    booleans, an array as its items one after the other.  An object is
    not a valid child ([None]). *)
Fixpoint jsonText (j : JSON) : option string :=
  match j with
  | JNull | JBool _ => Some ""
  | JStr s => Some s
  | JNum z => Some (pretty z)
  | JArr items =>
      (fix texts (l : list JSON) : option string :=
         match l with
         | [] => Some ""
         | x :: rest =>
             match jsonText x, texts rest with
             | Some a, Some b => Some (a ++ b)
             | _, _ => None
             end
         end) items
  | JObj _ => None
  end.

Definition exprText (v : jsval) : option string :=
  match v with
  | VUndefined => Some ""
  | VJson j => jsonText j
  | VError _ _ => None
  end.

(** The text of a node: the texts of its descendants, concatenated. *)
Fixpoint textContent (t : JSX) : option string :=
  match t with
  | Text s => Some s
  | Expr v => exprText v
  | Element _ _ children =>
      let fix texts (l : list JSX) : option string :=
        match l with
        | [] => Some ""
        | c :: rest =>
            match textContent c, texts rest with
            | Some a, Some b => Some (a ++ b)
            | _, _ => None
            end
        end in
      texts children
  end.

(** ** Reading a request body back *)

Definition hex_value (c : ascii) : option N :=
  let n := N_of_ascii c in
  if (48 <=? n)%N && (n <=? 57)%N then Some (n - 48)%N
  else if (97 <=? n)%N && (n <=? 102)%N then Some (n - 87)%N
  else None.

Definition cons_fst (c : ascii) (o : option (string * string)) : option (string * string) :=
  match o with
  | Some (t, rest) => Some (String c t, rest)
  | None => None
  end.

(** The characters of a quoted JSON string, read up to its closing
    quote, together with what follows the quote: the inverse of [escape]
    (of the [\u] escapes only those [escape] produces, [\u00XX]). *)
Fixpoint read_quoted (s : string) : option (string * string) :=
  match s with
  | EmptyString => None
  | String c rest =>
      if (N_of_ascii c =? 34)%N then Some ("", rest)
      else if (N_of_ascii c =? 92)%N then
        match rest with
        | String e rest1 =>
            if (N_of_ascii e =? 98)%N then cons_fst (ascii_of_N 8) (read_quoted rest1)
            else if (N_of_ascii e =? 116)%N then cons_fst (ascii_of_N 9) (read_quoted rest1)
            else if (N_of_ascii e =? 110)%N then cons_fst (ascii_of_N 10) (read_quoted rest1)
            else if (N_of_ascii e =? 102)%N then cons_fst (ascii_of_N 12) (read_quoted rest1)
            else if (N_of_ascii e =? 114)%N then cons_fst (ascii_of_N 13) (read_quoted rest1)
            else if (N_of_ascii e =? 34)%N then cons_fst e (read_quoted rest1)
            else if (N_of_ascii e =? 92)%N then cons_fst e (read_quoted rest1)
            else if (N_of_ascii e =? 117)%N then
              match rest1 with
              | String h1 (String h2 (String h3 (String h4 rest5))) =>
                  match hex_value h1, hex_value h2, hex_value h3, hex_value h4 with
                  | Some 0%N, Some 0%N, Some a, Some b =>
                      cons_fst (ascii_of_N (16 * a + b)) (read_quoted rest5)
                  | _, _, _, _ => None
                  end
              | _ => None
              end
            else None
        | EmptyString => None
        end
      else cons_fst c (read_quoted rest)
  end.

(** [s] without the prefix [p], when it starts with it. *)
Fixpoint strip (p s : string) : option string :=
  match p, s with
  | EmptyString, _ => Some s
  | String a p', String b s' => if Ascii.eqb a b then strip p' s' else None
  | String _ _, EmptyString => None
  end.

(** The username and password a request body carries. *)
Definition read_credentials (b : string) : option (string * string) :=
  match strip ("{" ++ dquote ++ "username" ++ dquote ++ ":" ++ dquote) b with
  | Some r0 =>
      match read_quoted r0 with
      | Some (u, r1) =>
          match strip ("," ++ dquote ++ "password" ++ dquote ++ ":" ++ dquote) r1 with
          | Some r2 =>
              match read_quoted r2 with
              | Some (p, r3) => if String.eqb r3 "}" then Some (u, p) else None
              | None => None
              end
          | None => None
          end
      | None => None
      end
  | None => None
  end.

(** ** The stories of test/login.spec.jsx *)

Definition token : string := "fake_user_token".

(** The object held by the variable [serverResponse]; its [body] is
    named [responseBody] here. *)
Record ServerResponse := {
  status : nat;
  responseBody : JSON;
}.

(** [let serverResponse = {status: 200, body: {token}}] *)
Definition serverResponse : ServerResponse :=
  {| status := 200; responseBody := JObj [("token", JStr token)] |}.

(** [LoginWithServerException.preRender]: the variable is assigned anew. *)
Definition preRender (sr : ServerResponse) : ServerResponse :=
  {| status := 500; responseBody := JObj [("message", JStr "Internal server error")] |}.

(** The answer of the route [app.post('/api/login', ...)], which is
    [res.status(serverResponse.status).json(serverResponse.body)]
    whatever the request holds, as [fetch] delivers it: [ok] for a status
    from 200 to 299, and the body parsed back.  (For the statuses that
    carry a body, as 200 and 500 do.) *)
Definition respond (sr : ServerResponse) : settled Response :=
  Fulfilled {| ok := (200 <=? status sr)%nat && (status sr <=? 299)%nat;
               json := Fulfilled (responseBody sr) |}.

Definition lower (c : ascii) : ascii :=
  let n := N_of_ascii c in
  if (65 <=? n)%N && (n <=? 90)%N then ascii_of_N (n + 32) else c.

Fixpoint lowercase (s : string) : string :=
  match s with
  | EmptyString => EmptyString
  | String c rest => String (lower c) (lowercase rest)
  end.

Fixpoint includes (p s : string) : bool :=
  String.prefix p s ||
  match s with
  | EmptyString => false
  | String _ rest => includes p rest
  end.

(** [/p/i.test(s)] for a pattern [p] of literal characters. *)
Definition matches_i (p s : string) : bool := includes (lowercase p) (lowercase s).

(** [expect(await browser.getByRole('alert')).text.to.match(/p/i)] *)
Definition expectAlert (p : string) (w : World) : bool :=
  match getByRole "alert" (Login (state w)) with
  | Some e =>
      match textContent e with
      | Some t => matches_i p t
      | None => false
      end
  | None => false
  end.

(** [expect(window.localStorage.getItem('token')).to.equal(token)] *)
Definition expectToken (w : World) : bool :=
  bool_decide (localStorage w !! "token" = Some token).

(** A story as the browser runs it: the component is rendered over the
    storage of the page, the form is filled with 'chuck' and 'norris' and
    submitted, and the mock server answers. *)
Definition story (sr : ServerResponse) (storage : gmap string string) : World :=
  run [Submit chuck; Settle (respond sr)] (mount storage).

Definition LoginWithValidCredentials_test (w : World) : bool :=
  expectAlert "congrats" w && expectToken w.

Definition LoginWithServerException_test (w : World) : bool :=
  expectAlert "internal server error" w && expectToken w.

(** [teardown]: [window.localStorage.removeItem('token')]. *)
Definition teardown (storage : gmap string string) : gmap string string :=
  delete "token" storage.

(** The suite: the two stories in the order of the file, on one page
    storage, then the teardown.  The result is the verdict of the two
    tests and the storage left behind. *)
Definition suite (storage : gmap string string) : bool * gmap string string :=
  let w1 := story serverResponse storage in
  let w2 := story (preRender serverResponse) (localStorage w1) in
  (LoginWithValidCredentials_test w1 && LoginWithServerException_test w2,
   teardown (localStorage w2)).

(** ** The updates in a trace, and the page *)

(** The objects passed to [setState] in a trace, in order. *)
Definition updates (t : list HostCall) : list (gmap string jsval) :=
  omap (λ c, match c with SetState a => Some a | _ => None end) t.

(** Whether React accepts a value as a child: an object, parsed or an
    error, is refused (the render throws); an array is rendered item by
    item. *)
Fixpoint validChild (j : JSON) : bool :=
  match j with
  | JObj _ => false
  | JArr items => forallb validChild items
  | _ => true
  end.

Definition validExpr (v : jsval) : bool :=
  match v with
  | VUndefined => true
  | VJson j => validChild j
  | VError _ _ => false
  end.

Fixpoint renderable (t : JSX) : bool :=
  match t with
  | Text _ => true
  | Expr v => validExpr v
  | Element _ _ children => forallb renderable children
  end.

(** The page after a run from [w]: the tree [Login] returns for the
    current state, as long as every render so far went through.  The
    component is rendered anew after each step; at the first render that
    throws React unmounts the root, and the page stays empty ([None])
    whatever happens next. *)
Fixpoint page (inputs : list Input) (w : World) : option JSX :=
  if renderable (Login (state w)) then
    match inputs with
    | [] => Some (Login (state w))
    | i :: rest => page rest (react i w)
    end
  else None.

(** * Properties *)

(** ** The conversions and the two test scenarios, evaluated *)

Example ToString_token : ToString (VStr "fake_user_token") = Normal "fake_user_token".
Proof. reflexivity. Qed.

Example ToString_array :
  ToString (JArr [JNum 1; JNull; JArr [JStr "a"; JBool true]]) = Normal "1,,a,true".
Proof. vm_compute. reflexivity. Qed.

Example JSON_stringify_credentials :
  JSON_stringify (JObj [("username", JStr "chuck"); ("password", JStr "norris")])
  = "{" ++ dquote ++ "username" ++ dquote ++ ":" ++ dquote ++ "chuck" ++ dquote ++ ","
        ++ dquote ++ "password" ++ dquote ++ ":" ++ dquote ++ "norris" ++ dquote ++ "}".
Proof. vm_compute. reflexivity. Qed.

Example valid_credentials_alert :
  getAllByRole "alert" (Login (state (submitFlow chuck (Fulfilled validResponse) (mount ∅))))
  = [Element "div" [("role", PString "alert")] [Text "Congrats! You're signed in!"]].
Proof. vm_compute. reflexivity. Qed.

Example valid_credentials_token :
  localStorage (submitFlow chuck (Fulfilled validResponse) (mount ∅)) !! "token"
  = Some "fake_user_token".
Proof. vm_compute. reflexivity. Qed.

Example server_exception_alert :
  getAllByRole "alert" (Login (state (submitFlow chuck (Fulfilled serverException) (mount ∅))))
  = [Element "div" [("role", PString "alert")] [Expr (VStr "Internal server error")]].
Proof. vm_compute. reflexivity. Qed.

Example page_after_server_exception :
  page [Submit chuck; Settle (Fulfilled serverException)] (mount ∅)
  = Some (Login (failureAction (VStr "Internal server error"))).
Proof. vm_compute. reflexivity. Qed.

Example page_after_object_message :
  page [Submit chuck; Settle (Fulfilled objectMessage); Submit chuck] (mount ∅) = None.
Proof. vm_compute. reflexivity. Qed.

(** ** What one call of each part does to the world *)

Lemma handleSubmit_exec event w :
  exec (handleSubmit event) w =
  {| state := reducer (state w) loadingAction;
     localStorage := localStorage w;
     inflight := S (inflight w);
     trace := trace w ++ [PreventDefault; SetState loadingAction; Fetch (loginRequest event)] |}.
Proof.
  unfold exec, handleSubmit, preventDefault, call, setState, fetch, mbind, M_bind.
  simpl. f_equal. by rewrite <- !app_assoc.
Qed.

(** Case analysis of a settlement: the promise handed to the second
    [then], the read of [token] or [message], the conversion. *)
Ltac settle_cases outcome :=
  unfold exec, settle, then_, onUser, onError, localStorage_setItem, store, setState,
    lift, mbind, M_bind;
  let user := fresh "user" in
  let e := fresh "e" in
  let tok := fresh "tok" in
  destruct (then_chain outcome unwrap) as [user|e];
  [ destruct (get_prop user "token") as [tok|]; [destruct (ToString tok)|]
  | destruct (get_prop e "message") ];
  simpl.

Lemma settle_inflight outcome w :
  inflight (exec (settle outcome) w) = pred (inflight w).
Proof. settle_cases outcome; reflexivity. Qed.

Lemma settle_state outcome w :
  state (exec (settle outcome) w) =
  match then_chain outcome unwrap with
  | Fulfilled _ => reducer (state w) successAction
  | Rejected e =>
      match get_prop e "message" with
      | Normal m => reducer (state w) (failureAction m)
      | Throw _ => state w
      end
  end.
Proof. settle_cases outcome; reflexivity. Qed.

Lemma settle_localStorage outcome w :
  localStorage (exec (settle outcome) w) =
  match then_chain outcome unwrap with
  | Fulfilled user =>
      match get_prop user "token" with
      | Normal tok =>
          match ToString tok with
          | Normal s => <["token" := s]> (localStorage w)
          | Throw _ => localStorage w
          end
      | Throw _ => localStorage w
      end
  | Rejected _ => localStorage w
  end.
Proof. settle_cases outcome; reflexivity. Qed.

Lemma settle_trace outcome w :
  trace (exec (settle outcome) w) =
  (trace w ++
  match then_chain outcome unwrap with
  | Fulfilled user =>
      SetState successAction ::
      match get_prop user "token" with
      | Normal tok =>
          match ToString tok with
          | Normal s => [SetItem "token" s]
          | Throw _ => []
          end
      | Throw _ => []
      end
  | Rejected e =>
      match get_prop e "message" with
      | Normal m => [SetState (failureAction m)]
      | Throw _ => []
      end
  end)%list.
Proof.
  settle_cases outcome; rewrite <- ?app_assoc, ?app_nil_r; reflexivity.
Qed.

(** An action of the flow fixes the three fields, whatever they held. *)
Lemma reducer_loading s : loadingState (reducer s loadingAction).
Proof. repeat split; unfold field, reducer; by erewrite lookup_union_Some_l. Qed.

Lemma reducer_success s : successState (reducer s successAction).
Proof. repeat split; unfold field, reducer; by erewrite lookup_union_Some_l. Qed.

Lemma reducer_failure m s : failureState m (reducer s (failureAction m)).
Proof. repeat split; unfold field, reducer; by erewrite lookup_union_Some_l. Qed.

(** ** Invariants of runs *)

Section RunInvariant.
Variable P : World → Prop.
Hypothesis P_react : ∀ i w, P w → P (react i w).

Lemma run_preserves inputs w : P w → P (run inputs w).
Proof.
  revert w. induction inputs as [|i rest IH]; intros w Hw; simpl; [done|].
  by apply IH, P_react.
Qed.
End RunInvariant.

(** The same for a relation between two runs on the same inputs. *)
Section RunRelation.
Variable R : World → World → Prop.
Hypothesis R_react : ∀ i w1 w2, R w1 w2 → R (react i w1) (react i w2).

Lemma run_related inputs w1 w2 : R w1 w2 → R (run inputs w1) (run inputs w2).
Proof.
  revert w1 w2. induction inputs as [|i rest IH]; intros w1 w2 Hw; simpl; [done|].
  by apply IH, R_react.
Qed.
End RunRelation.

Create HintDb login discriminated.
#[export] Hint Resolve reducer_loading reducer_success reducer_failure : login.

Lemma initialState_fields : failureState VNull initialState.
Proof. by repeat split. Qed.

Lemma react_flowInv i w : flowInv (state w) → flowInv (state (react i w)).
Proof.
  intros Hinv. unfold flowInv. destruct i as [event|outcome]; unfold react.
  - rewrite handleSubmit_exec. cbn [state]. auto with login.
  - destruct (inflight w); [done|]. rewrite settle_state.
    destruct (then_chain outcome unwrap) as [user|e]; [auto with login|].
    destruct (get_prop e "message") as [m|]; [eauto with login|done].
Qed.

Lemma run_flowInv inputs w : flowInv (state w) → flowInv (state (run inputs w)).
Proof. apply (run_preserves (λ w, flowInv (state w))), react_flowInv. Qed.

Lemma reachable_flowInv w : reachable w → flowInv (state w).
Proof.
  intros (storage & inputs & ->). apply run_flowInv.
  right; right. exists VNull. apply initialState_fields.
Qed.

(** ** C1: the two outcomes of a submission *)




(** ** C2: exactly one of loading, resolved, error *)

Lemma flowInv_conditions s :
  flowInv s →
  countTrue (conditions s) = 1 ∨
  (countTrue (conditions s) = 0 ∧ (failureState VNull s ∨ failureState VUndefined s)).
Proof.
  unfold conditions, isLoading, isResolved, hasError, countTrue.
  intros [(Hl & Hr & He)|[(Hl & Hr & He)|[m (Hl & Hr & He)]]]; rewrite Hl, Hr, He.
  - by left.
  - by left.
  - destruct m as [|[]|]; simpl; auto.
    + right. split; [done|]. by right.
    + right. split; [done|]. by left.
Qed.

Lemma flowInv_indicators s :
  flowInv s →
  countTrue (indicators s) = 1 ∨
  (countTrue (indicators s) = 0 ∧ ∃ m, failureState m s ∧ truthy m = false).
Proof.
  unfold indicators, loadingIndicator, successAlert, errorAlert, countTrue.
  intros [(Hl & Hr & He)|[(Hl & Hr & He)|[m (Hl & Hr & He)]]]; rewrite Hl, Hr, He.
  - by left.
  - by left.
  - destruct (truthy m) eqn:Hm; simpl; [by left|].
    right. split; [done|]. by exists m.
Qed.

(** C2, as amended.  In every state reachable from the initial state by
    submissions and settlements, exactly one of the conditions
    loading = true, resolved = true, error != null holds, except in the
    initial state and after a failure whose message is null or absent
    (the fields are then false, false and null or undefined), where none
    holds.  Correspondingly the JSX selects exactly one of the loading
    indicator, the success alert and the error alert, except after a
    failure whose message is falsy (the initial state has the fields of
    one), where it selects none. *)
Theorem one_condition_at_a_time w :
  reachable w →
  (countTrue (conditions (state w)) = 1 ∨
   (countTrue (conditions (state w)) = 0 ∧
    (failureState VNull (state w) ∨ failureState VUndefined (state w)))) ∧
  (countTrue (indicators (state w)) = 1 ∨
   (countTrue (indicators (state w)) = 0 ∧
    ∃ m, failureState m (state w) ∧ truthy m = false)).
Proof.
  intros Hw. apply reachable_flowInv in Hw.
  split; [by apply flowInv_conditions | by apply flowInv_indicators].
Qed.

Lemma one_condition_at_a_time_witness :
  (countTrue (conditions (state (run [Submit chuck; Settle (Fulfilled serverException)] (mount ∅)))) = 1 ∨
   (countTrue (conditions (state (run [Submit chuck; Settle (Fulfilled serverException)] (mount ∅)))) = 0 ∧
    (failureState VNull (state (run [Submit chuck; Settle (Fulfilled serverException)] (mount ∅))) ∨
     failureState VUndefined (state (run [Submit chuck; Settle (Fulfilled serverException)] (mount ∅)))))) ∧
  (countTrue (indicators (state (run [Submit chuck; Settle (Fulfilled serverException)] (mount ∅)))) = 1 ∨
   (countTrue (indicators (state (run [Submit chuck; Settle (Fulfilled serverException)] (mount ∅)))) = 0 ∧
    ∃ m, failureState m (state (run [Submit chuck; Settle (Fulfilled serverException)] (mount ∅))) ∧
         truthy m = false)).
Proof.
  apply one_condition_at_a_time.
  exists ∅, [Submit chuck; Settle (Fulfilled serverException)]. reflexivity.
Defined.

(** C2, as stated, fails: after a failure whose body carries no message
    the state is reachable and none of the three conditions holds, and
    nothing but the form is rendered; the same is true of the initial
    state. *)
Lemma one_condition_at_a_time_counterexample :
  conditions (state (run [Submit chuck; Settle (Fulfilled noMessage)] (mount ∅)))
    = [false; false; false] ∧
  indicators (state (run [Submit chuck; Settle (Fulfilled noMessage)] (mount ∅)))
    = [false; false; false] ∧
  conditions (state (mount ∅)) = [false; false; false].
Proof. vm_compute. repeat split. Qed.

(** ** C3: the error alert *)

Lemma alerts_of_state s :
  getAllByRole "alert" (Login s) =
  ((if truthy (field s "error")
    then [Element "div" [("role", PString "alert")] [Expr (field s "error")]] else []) ++
   (if truthy (field s "resolved")
    then [Element "div" [("role", PString "alert")] [Text "Congrats! You're signed in!"]]
    else []))%list.
Proof.
  unfold Login. by destruct (truthy (field s "error")), (truthy (field s "resolved")).
Qed.




(** ** C4: an ok response stores the token *)




(** ** C5 and C6: the requests *)

Lemma settle_requests outcome w :
  requests (trace (exec (settle outcome) w)) = requests (trace w).
Proof.
  rewrite settle_trace. unfold requests. rewrite omap_app.
  destruct (then_chain outcome unwrap) as [user|e].
  - destruct (get_prop user "token") as [tok|]; [destruct (ToString tok)|];
      by rewrite app_nil_r.
  - destruct (get_prop e "message"); by rewrite app_nil_r.
Qed.

Lemma react_requests i w :
  requests (trace (react i w)) =
  (requests (trace w) ++
   match i with Submit event => [loginRequest event] | Settle _ => [] end)%list.
Proof.
  destruct i as [event|outcome]; unfold react.
  - rewrite handleSubmit_exec. cbn [trace]. unfold requests. by rewrite omap_app.
  - rewrite app_nil_r. destruct (inflight w); [done|]. apply settle_requests.
Qed.

Lemma run_requests inputs w :
  requests (trace (run inputs w)) =
  (requests (trace w) ++ map loginRequest (submissions inputs))%list.
Proof.
  revert w. induction inputs as [|i rest IH]; intros w; simpl.
  - by rewrite app_nil_r.
  - rewrite IH, react_requests, <- app_assoc. by destruct i.
Qed.

(** C5.  The requests issued in a run of the component are, in order,
    one per submission: a POST to http://localhost:3000/api/login with
    the header Content-Type: application/json, whose body is the JSON
    text of the object holding the username and password input values
    of that submission.  The endpoint is the same for all of them. *)
Theorem requests_are_login_posts inputs storage :
  requests (trace (run inputs (mount storage))) =
  map (λ event,
         {| url := "http://localhost:3000/api/login";
            method := "POST";
            headers := [("Content-Type", "application/json")];
            body := JSON_stringify
                      (JObj [("username", JStr (value (usernameInput event)));
                             ("password", JStr (value (passwordInput event)))]) |})
      (submissions inputs).
Proof. by rewrite run_requests. Qed.

(** C6.  An invocation of the submit handler issues exactly one request:
    the handler adds one to the requests made so far, the settlement of
    that request adds none, and a run has made as many requests as it has
    had submissions. *)
Theorem one_request_per_submission event outcome w inputs storage :
  length (requests (trace (exec (handleSubmit event) w))) = S (length (requests (trace w))) ∧
  length (requests (trace (submitFlow event outcome w))) = S (length (requests (trace w))) ∧
  length (requests (trace (run inputs (mount storage)))) = length (submissions inputs).
Proof.
  split; [|split].
  - rewrite handleSubmit_exec. cbn [trace]. unfold requests.
    rewrite omap_app, length_app. simpl. lia.
  - unfold submitFlow. rewrite settle_requests, handleSubmit_exec. cbn [trace].
    unfold requests. rewrite omap_app, length_app. simpl. lia.
  - rewrite run_requests. cbn [mount trace requests omap app]. apply length_map.
Qed.

(** ** C7: the one storage key *)

Lemma settle_storageKeys outcome w :
  ∃ keys, storageKeys (trace (exec (settle outcome) w)) = (storageKeys (trace w) ++ keys)%list
          ∧ Forall (λ key, key = "token") keys.
Proof.
  rewrite settle_trace. unfold storageKeys. rewrite omap_app.
  eexists; split; [reflexivity|].
  destruct (then_chain outcome unwrap) as [user|e].
  - destruct (get_prop user "token") as [tok|]; [destruct (ToString tok)|];
      simpl; repeat constructor.
  - destruct (get_prop e "message"); simpl; constructor.
Qed.

Lemma react_storageKeys i w :
  Forall (λ key, key = "token") (storageKeys (trace w)) →
  Forall (λ key, key = "token") (storageKeys (trace (react i w))).
Proof.
  intros Hw. destruct i as [event|outcome]; unfold react.
  - rewrite handleSubmit_exec. cbn [trace]. unfold storageKeys in *.
    rewrite omap_app. simpl. by rewrite app_nil_r.
  - destruct (inflight w); [done|].
    destruct (settle_storageKeys outcome w) as (keys & -> & Hkeys).
    by apply Forall_app.
Qed.

Lemma react_other_keys i w :
  delete "token" (localStorage (react i w)) = delete "token" (localStorage w).
Proof.
  destruct i as [event|outcome]; unfold react.
  - by rewrite handleSubmit_exec.
  - destruct (inflight w); [done|]. rewrite settle_localStorage.
    destruct (then_chain outcome unwrap) as [user|e]; [|done].
    destruct (get_prop user "token") as [tok|]; [|done].
    destruct (ToString tok); [|done]. apply delete_insert_eq.
Qed.

Lemma run_storageKeys inputs w :
  Forall (λ key, key = "token") (storageKeys (trace w)) →
  Forall (λ key, key = "token") (storageKeys (trace (run inputs w))).
Proof.
  apply (run_preserves (λ w, Forall (λ key, key = "token") (storageKeys (trace w)))),
    react_storageKeys.
Qed.

Lemma run_other_keys inputs w :
  delete "token" (localStorage (run inputs w)) = delete "token" (localStorage w).
Proof.
  apply (run_preserves
           (λ w', delete "token" (localStorage w') = delete "token" (localStorage w)));
    [|done].
  intros i w' <-. apply react_other_keys.
Qed.

(** C7.  Every storage access the component performs in a run targets
    the key 'token', and the storage is left as it was on every other
    key; the key 'token' is indeed accessed, by a successful login.
    (The component's only storage operation is [setItem].) *)
Theorem storage_access_is_token_only inputs storage :
  Forall (λ key, key = "token") (storageKeys (trace (run inputs (mount storage)))) ∧
  delete "token" (localStorage (run inputs (mount storage))) = delete "token" storage ∧
  storageKeys (trace (run [Submit chuck; Settle (Fulfilled validResponse)] (mount storage)))
  = ["token"].
Proof.
  split; [|split].
  - apply run_storageKeys. constructor.
  - apply run_other_keys.
  - reflexivity.
Qed.

(** ** C8: three ephemeral fields *)

Lemma dom_flowAction (l r e : jsval) :
  dom ({[ "loading" := l; "resolved" := r; "error" := e ]} : gmap string jsval)
  = ({[ "loading"; "resolved"; "error" ]} : gset string).
Proof. rewrite !dom_insert_L, dom_singleton_L. set_solver. Qed.

Lemma dom_initialState :
  dom initialState = ({[ "loading"; "resolved"; "error" ]} : gset string).
Proof. unfold initialState. rewrite !dom_insert_L, dom_singleton_L. set_solver. Qed.

Lemma react_dom i w :
  dom (state w) = ({[ "loading"; "resolved"; "error" ]} : gset string) →
  dom (state (react i w)) = ({[ "loading"; "resolved"; "error" ]} : gset string).
Proof.
  intros Hw. destruct i as [event|outcome]; unfold react.
  - rewrite handleSubmit_exec. cbn [state]. unfold reducer, loadingAction.
    rewrite dom_union_L, dom_flowAction, Hw. set_solver.
  - destruct (inflight w); [done|]. rewrite settle_state.
    destruct (then_chain outcome unwrap) as [user|e].
    + unfold reducer, successAction. rewrite dom_union_L, dom_flowAction, Hw. set_solver.
    + destruct (get_prop e "message") as [m|]; [|done].
      unfold reducer, failureAction. rewrite dom_union_L, dom_flowAction, Hw. set_solver.
Qed.

Lemma run_dom inputs w :
  dom (state w) = ({[ "loading"; "resolved"; "error" ]} : gset string) →
  dom (state (run inputs w)) = ({[ "loading"; "resolved"; "error" ]} : gset string).
Proof.
  apply (run_preserves
           (λ w, dom (state w) = ({[ "loading"; "resolved"; "error" ]} : gset string))),
    react_dom.
Qed.

(** The state after a step is a function of the state and the number of
    requests in flight: the storage plays no part. *)
Lemma react_state_indep i w1 w2 :
  state w1 = state w2 → inflight w1 = inflight w2 →
  state (react i w1) = state (react i w2) ∧ inflight (react i w1) = inflight (react i w2).
Proof.
  intros Hs Hn. destruct i as [event|outcome]; unfold react.
  - rewrite !handleSubmit_exec. cbn [state inflight]. by rewrite Hs, Hn.
  - rewrite <- Hn. destruct (inflight w1) eqn:E; [split; congruence|].
    rewrite !settle_state, !settle_inflight, Hs. split; [done | congruence].
Qed.

(** The storage after a step is a function of the storage and the number
    of requests in flight: the state plays no part. *)
Lemma react_storage_indep i w1 w2 :
  localStorage w1 = localStorage w2 → inflight w1 = inflight w2 →
  localStorage (react i w1) = localStorage (react i w2) ∧
  inflight (react i w1) = inflight (react i w2).
Proof.
  intros Hs Hn. destruct i as [event|outcome]; unfold react.
  - rewrite !handleSubmit_exec. cbn [localStorage inflight]. by rewrite Hs, Hn.
  - rewrite <- Hn. destruct (inflight w1) eqn:E; [split; congruence|].
    rewrite !settle_localStorage, !settle_inflight, Hs. split; [done | congruence].
Qed.

Lemma run_state_indep inputs w1 w2 :
  state w1 = state w2 → inflight w1 = inflight w2 →
  state (run inputs w1) = state (run inputs w2).
Proof.
  intros Hs Hn.
  apply (run_related (λ w1 w2, state w1 = state w2 ∧ inflight w1 = inflight w2));
    [|done].
  intros i v1 v2 [??]. by apply react_state_indep.
Qed.

Lemma run_storage_indep inputs w1 w2 :
  localStorage w1 = localStorage w2 → inflight w1 = inflight w2 →
  localStorage (run inputs w1) = localStorage (run inputs w2).
Proof.
  intros Hs Hn.
  apply (run_related (λ w1 w2, localStorage w1 = localStorage w2 ∧ inflight w1 = inflight w2));
    [|done].
  intros i v1 v2 [??]. by apply react_storage_indep.
Qed.

(** C8.  The state object has exactly the three fields loading, resolved
    and error, in every run; it starts as loading = false,
    resolved = false, error = null whatever the storage holds; no run
    restores it from the storage (the state after a run is the same for
    any two initial storages); and no run persists it (the storage after
    a run is the same whatever state object the run started from). *)
Theorem state_is_three_ephemeral_fields inputs storage storage' s w :
  dom (state (run inputs (mount storage))) = ({[ "loading"; "resolved"; "error" ]} : gset string) ∧
  state (mount storage) = {[ "resolved" := VBool false; "loading" := VBool false; "error" := VNull ]} ∧
  state (run inputs (mount storage)) = state (run inputs (mount storage')) ∧
  localStorage (run inputs (withState s w)) = localStorage (run inputs w).
Proof.
  split; [|split; [|split]].
  - apply run_dom, dom_initialState.
  - reflexivity.
  - by apply run_state_indep.
  - by apply run_storage_indep.
Qed.

(** ** C9: a failed submission leaves the storage alone *)



(** ** C10: the handler's first two calls *)

Lemma submissions_keep_loading events w :
  loadingState (state w) → loadingState (state (run (map Submit events) w)).
Proof.
  revert w. induction events as [|event events IH]; intros w Hw; [done|].
  cbn [map run react]. apply IH. rewrite handleSubmit_exec. apply reducer_loading.
Qed.

(** C10, as amended.  Every invocation of the submit handler calls
    [event.preventDefault()] first and [setState] with loading = true,
    resolved = false, error = null next, before the request leaves;
    whatever the state was, it is then the loading state and no alert of
    an earlier submission is rendered, and this stays so, through any
    further submissions, until a request settles.  (The request that
    settles may be an earlier one, still in flight.) *)
Theorem submit_prevents_default_and_resets event events w :
  trace (exec (handleSubmit event) w)
  = (trace w ++
     [PreventDefault;
      SetState {[ "loading" := VBool true; "resolved" := VBool false; "error" := VNull ]};
      Fetch (loginRequest event)])%list ∧
  loadingState (state (run (map Submit events) (exec (handleSubmit event) w))) ∧
  getAllByRole "alert"
    (Login (state (run (map Submit events) (exec (handleSubmit event) w)))) = [].
Proof.
  split; [by rewrite handleSubmit_exec|].
  assert (loadingState (state (run (map Submit events) (exec (handleSubmit event) w))))
    as Hload.
  { apply submissions_keep_loading. rewrite handleSubmit_exec. apply reducer_loading. }
  split; [done|].
  rewrite alerts_of_state. by destruct Hload as (_ & -> & ->).
Qed.

(** C10, as stated, fails: with two requests in flight, the failure of
    the first arrives while the second is still pending, and the alert
    of the earlier submission is rendered during the new request. *)
Lemma submit_prevents_default_and_resets_counterexample :
  inflight (run [Submit chuck; Submit chuck; Settle (Fulfilled serverException)] (mount ∅)) = 1 ∧
  isLoading (state (run [Submit chuck; Submit chuck; Settle (Fulfilled serverException)]
                      (mount ∅))) = false ∧
  getAllByRole "alert"
    (Login (state (run [Submit chuck; Submit chuck; Settle (Fulfilled serverException)]
                     (mount ∅))))
  = [Element "div" [("role", PString "alert")] [Expr (VStr "Internal server error")]].
Proof. vm_compute. repeat split. Qed.

(** * Further properties of the component and of its test file *)

(** ** The reducer and the state object *)

Lemma reducer_covered (s a : gmap string jsval) : dom s ⊆ dom a → reducer s a = a.
Proof.
  intros Hdom. unfold reducer. apply map_eq. intros k. rewrite lookup_union.
  destruct (a !! k) as [v|] eqn:Ha; [by destruct (s !! k)|].
  destruct (s !! k) as [v|] eqn:Hs; [|done].
  assert (k ∈ dom a) as [v' Hv']%elem_of_dom; [|congruence].
  apply Hdom, elem_of_dom. eauto.
Qed.

(** X1.  A dispatch that sets every key an earlier dispatch set hides the
    earlier one: the state after both is the state after the later one
    alone. *)
Theorem later_update_wins (s a b : gmap string jsval) :
  dom a ⊆ dom b → reducer (reducer s a) b = reducer s b.
Proof.
  intros Hdom. unfold reducer. apply map_eq. intros k. rewrite !lookup_union.
  destruct (b !! k) as [v|] eqn:Hb; [by destruct (a !! k), (s !! k)|].
  destruct (a !! k) as [v|] eqn:Ha; [|by destruct (s !! k)].
  assert (k ∈ dom b) as [v' Hv']%elem_of_dom; [|congruence].
  apply Hdom, elem_of_dom. eauto.
Qed.

Lemma later_update_wins_witness :
  reducer (reducer initialState loadingAction) (failureAction (VStr "Internal server error"))
  = reducer initialState (failureAction (VStr "Internal server error")).
Proof.
  apply later_update_wins. unfold loadingAction, failureAction.
  rewrite !dom_flowAction. done.
Defined.

Lemma updates_app t u : updates (t ++ u) = (updates t ++ updates u)%list.
Proof. apply omap_app. Qed.

Lemma react_last_update i w :
  dom (state w) = ({[ "loading"; "resolved"; "error" ]} : gset string) →
  state w = default initialState (last (updates (trace w))) →
  state (react i w) = default initialState (last (updates (trace (react i w)))).
Proof.
  intros Hdom Hw. destruct i as [event|outcome]; unfold react.
  - rewrite handleSubmit_exec. cbn [state trace].
    rewrite updates_app.
    change (updates [PreventDefault; SetState loadingAction; Fetch (loginRequest event)])
      with [loadingAction].
    rewrite last_snoc. simpl.
    apply reducer_covered. unfold loadingAction. by rewrite dom_flowAction, Hdom.
  - destruct (inflight w); [done|]. rewrite settle_state, settle_trace, updates_app.
    destruct (then_chain outcome unwrap) as [user|e].
    + assert (reducer (state w) successAction = successAction) as ->.
      { apply reducer_covered. unfold successAction. by rewrite dom_flowAction, Hdom. }
      destruct (get_prop user "token") as [tok|]; [destruct (ToString tok)|];
        change (updates _) with [successAction] at 2; by rewrite last_snoc.
    + destruct (get_prop e "message") as [m|].
      * change (updates [SetState (failureAction m)]) with [failureAction m].
        rewrite last_snoc. simpl. apply reducer_covered.
        unfold failureAction. by rewrite dom_flowAction, Hdom.
      * change (updates []) with (@nil (gmap string jsval)). by rewrite app_nil_r.
Qed.

(** X2.  In every run the state object is exactly the object last passed
    to [setState] according to the trace, and the initial object when
    [setState] has not been called: nothing of an earlier state survives
    an update. *)
Theorem state_is_last_update inputs storage :
  state (run inputs (mount storage))
  = default initialState (last (updates (trace (run inputs (mount storage))))).
Proof.
  apply (run_preserves
           (λ w, dom (state w) = ({[ "loading"; "resolved"; "error" ]} : gset string) ∧
                 state w = default initialState (last (updates (trace w))))).
  - intros i w [Hdom Hw]. split; [by apply react_dom | by apply react_last_update].
  - split; [apply dom_initialState | done].
Qed.

(** ** The error callback *)

Lemma alerts_failure m s :
  failureState (VStr m) s →
  getAllByRole "alert" (Login s) =
  (if String.eqb m "" then []
   else [Element "div" [("role", PString "alert")] [Expr (VStr m)]]).
Proof.
  intros (_ & Hres & Herr). rewrite alerts_of_state, Hres, Herr. simpl.
  by destruct (String.eqb m "").
Qed.




(** ** The success callback *)





(** ** The storage over a run *)

Lemma react_storage_dom i w :
  dom (localStorage w) ⊆ dom (localStorage (react i w)) ∧
  dom (localStorage (react i w)) ⊆ dom (localStorage w) ∪ {[ "token" ]}.
Proof.
  assert (∀ m : gmap string string, dom m ⊆ dom m ∧ dom m ⊆ dom m ∪ {[ "token" ]}) as Hsame.
  { intros m. split; [done | apply union_subseteq_l]. }
  destruct i as [event|outcome]; unfold react.
  - rewrite handleSubmit_exec. apply Hsame.
  - destruct (inflight w); [apply Hsame|]. rewrite settle_localStorage.
    destruct (then_chain outcome unwrap) as [user|e]; [|apply Hsame].
    destruct (get_prop user "token") as [tok|]; [|apply Hsame].
    destruct (ToString tok); [|apply Hsame].
    rewrite dom_insert_L. split; [apply union_subseteq_r | by rewrite (comm_L (∪))].
Qed.

(** X8.  No run removes a key from the storage, and the only key a run
    can add is 'token': the component has no logout. *)
Theorem storage_keys_only_grow inputs w :
  dom (localStorage w) ⊆ dom (localStorage (run inputs w)) ∧
  dom (localStorage (run inputs w)) ⊆ dom (localStorage w) ∪ {[ "token" ]}.
Proof.
  apply (run_preserves
           (λ w', dom (localStorage w) ⊆ dom (localStorage w') ∧
                  dom (localStorage w') ⊆ dom (localStorage w) ∪ {[ "token" ]})).
  - intros i w' [H1 H2]. destruct (react_storage_dom i w') as [H3 H4]. split.
    + by etrans.
    + etrans; [done|]. apply union_least; [done | apply union_subseteq_r].
  - split; [done | apply union_subseteq_l].
Qed.

Lemma react_writes_bound i w :
  (length (storageKeys (trace w)) + inflight w ≤ length (requests (trace w)))%nat →
  (length (storageKeys (trace (react i w))) + inflight (react i w)
   ≤ length (requests (trace (react i w))))%nat.
Proof.
  intros Hw. rewrite react_requests, length_app.
  destruct i as [event|outcome]; unfold react.
  - rewrite handleSubmit_exec. cbn [trace inflight]. unfold storageKeys in *.
    rewrite omap_app, length_app. simpl. lia.
  - destruct (inflight w) as [|n] eqn:Hn; [simpl; lia|].
    rewrite settle_inflight, Hn, settle_trace. unfold storageKeys in *.
    rewrite omap_app, length_app.
    destruct (then_chain outcome unwrap) as [user|e].
    + destruct (get_prop user "token") as [tok|]; [destruct (ToString tok)|]; simpl; lia.
    + destruct (get_prop e "message"); simpl; lia.
Qed.

(** X9.  The storage is written at most once for each request issued:
    in every run the number of [setItem] calls is at most the number of
    submissions. *)
Lemma run_requests_length inputs storage :
  length (requests (trace (run inputs (mount storage)))) = length (submissions inputs).
Proof. rewrite run_requests. cbn [mount trace requests omap app]. apply length_map. Qed.

Theorem writes_bounded_by_submissions inputs storage :
  (length (storageKeys (trace (run inputs (mount storage)))) ≤ length (submissions inputs))%nat.
Proof.
  assert (length (storageKeys (trace (run inputs (mount storage))))
          + inflight (run inputs (mount storage))
          ≤ length (requests (trace (run inputs (mount storage)))))%nat as H.
  { apply (run_preserves
             (λ w, (length (storageKeys (trace w)) + inflight w
                    ≤ length (requests (trace w)))%nat)).
    - apply react_writes_bound.
    - simpl. lia. }
  rewrite run_requests_length in H. lia.
Qed.

(** ** The request body *)

Lemma read_quoted_escape_char c t :
  read_quoted (escape_char c ++ t) = cons_fst c (read_quoted t).
Proof. destruct c as [[] [] [] [] [] [] [] []]; reflexivity. Qed.

Lemma string_app_assoc (a b c : string) : (a ++ b) ++ c = a ++ (b ++ c).
Proof.
  induction a as [|x a IH]; [reflexivity|].
  change (String x ((a ++ b) ++ c) = String x (a ++ b ++ c)). by rewrite IH.
Qed.

Lemma read_quoted_escape s rest :
  read_quoted (escape s ++ dquote ++ rest) = Some (s, rest).
Proof.
  induction s as [|c s IH]; [reflexivity|].
  cbn [escape]. rewrite string_app_assoc, read_quoted_escape_char, IH. reflexivity.
Qed.

Lemma strip_app p s : strip p (p ++ s) = Some s.
Proof.
  induction p as [|a p IH]; [by destruct s|].
  change (strip (String a p) (String a (p ++ s)) = Some s).
  cbn [strip]. by rewrite Ascii.eqb_refl.
Qed.

Lemma body_shape event :
  body (loginRequest event) =
  ("{" ++ dquote ++ "username" ++ dquote ++ ":" ++ dquote) ++
  escape (value (usernameInput event)) ++ dquote ++
  ("," ++ dquote ++ "password" ++ dquote ++ ":" ++ dquote) ++
  escape (value (passwordInput event)) ++ dquote ++ "}".
Proof.
  unfold loginRequest. cbn [body JSON_stringify map join fst snd].
  unfold QuoteJSONString. rewrite !string_app_assoc. reflexivity.
Qed.

Lemma read_credentials_body event :
  read_credentials (body (loginRequest event))
  = Some (value (usernameInput event), value (passwordInput event)).
Proof.
  rewrite body_shape. unfold read_credentials.
  rewrite strip_app, read_quoted_escape, strip_app, read_quoted_escape.
  reflexivity.
Qed.

(** X10.  The body of a request determines the username and the password
    it was built from: two submissions with the same body have the same
    input values, whatever characters (quotes, backslashes, control
    characters) the values hold. *)
Theorem request_body_determines_credentials event1 event2 :
  body (loginRequest event1) = body (loginRequest event2) → event1 = event2.
Proof.
  intros Hbody. apply (f_equal read_credentials) in Hbody.
  rewrite !read_credentials_body in Hbody.
  destruct event1 as [[u1] [p1]], event2 as [[u2] [p2]]. cbn in Hbody. congruence.
Qed.

Lemma request_body_determines_credentials_witness : chuck = chuck.
Proof. apply request_body_determines_credentials. reflexivity. Defined.

(** ** The submit button *)

Lemma buttons_of_state s :
  getAllByTag "button" (Login s) =
  [Element "button" [("type", PString "submit")]
     [Text "Submit"; Expr (if truthy (field s "loading") then VStr "..." else VNull)]].
Proof.
  unfold Login. by destruct (truthy (field s "error")), (truthy (field s "resolved")).
Qed.

Lemma page_tree inputs w t :
  page inputs w = Some t → t = Login (state (run inputs w)).
Proof.
  revert w. induction inputs as [|i rest IH]; intros w; cbn [page run];
    destruct (renderable (Login (state w))); try done.
  - congruence.
  - apply IH.
Qed.

(** X11.  As long as the component is mounted, that is, no render of the
    run has thrown, the page has exactly one button, and it reads
    'Submit...' exactly when loading is true: from a submission until
    the next update of the state. *)
Theorem button_shows_loading inputs storage t :
  page inputs (mount storage) = Some t →
  getAllByTag "button" t =
  [Element "button" [("type", PString "submit")]
     [Text "Submit";
      Expr (if isLoading (state (run inputs (mount storage))) then VStr "..." else VNull)]].
Proof.
  intros ->%page_tree. rewrite buttons_of_state. unfold isLoading.
  assert (flowInv (state (run inputs (mount storage)))) as Hinv.
  { apply reachable_flowInv. by exists storage, inputs. }
  by destruct Hinv as [(-> & _)|[(-> & _)|[m (-> & _)]]].
Qed.

Lemma button_shows_loading_witness :
  getAllByTag "button" (Login (state (run [Submit chuck] (mount ∅)))) =
  [Element "button" [("type", PString "submit")]
     [Text "Submit";
      Expr (if isLoading (state (run [Submit chuck] (mount ∅))) then VStr "..." else VNull)]].
Proof.
  apply (button_shows_loading [Submit chuck] ∅). reflexivity.
Defined.

(** ** The stories of the test file *)

Lemma story_flow sr storage :
  story sr storage = submitFlow chuck (respond sr) (mount storage).
Proof.
  unfold story, submitFlow. cbn [run react]. by rewrite handleSubmit_exec.
Qed.

Lemma story_state sr storage : state (story sr storage) = state (story sr ∅).
Proof. unfold story. by apply run_state_indep. Qed.

Lemma expectAlert_story p sr storage :
  expectAlert p (story sr storage) = expectAlert p (story sr ∅).
Proof. unfold expectAlert. by rewrite story_state. Qed.

Lemma story_valid_storage storage :
  localStorage (story serverResponse storage) = <["token" := token]> storage.
Proof. rewrite story_flow. unfold submitFlow. by rewrite settle_localStorage. Qed.

Lemma story_exception_storage sr storage :
  localStorage (story (preRender sr) storage) = storage.
Proof. rewrite story_flow. unfold submitFlow. by rewrite settle_localStorage. Qed.

Lemma expectAlert_valid storage :
  expectAlert "congrats" (story serverResponse storage) = true.
Proof. by rewrite expectAlert_story. Qed.

Lemma expectAlert_exception sr storage :
  expectAlert "internal server error" (story (preRender sr) storage) = true.
Proof. by rewrite expectAlert_story. Qed.

(** X12.  The story LoginWithValidCredentials passes its test on a page
    with any storage: the one alert matches /congrats/i and the key
    'token' holds the token of the mock server. *)
Theorem valid_credentials_story_passes storage :
  LoginWithValidCredentials_test (story serverResponse storage) = true.
Proof.
  unfold LoginWithValidCredentials_test, expectToken.
  rewrite expectAlert_valid, story_valid_storage, lookup_insert_eq.
  by rewrite bool_decide_eq_true_2.
Qed.

(** X13.  The story LoginWithServerException finds its alert, matching
    /internal server error/i, on a page with any storage, but its last
    expectation, that the key 'token' holds the token, is met exactly
    when the storage held the token before the story: the failed login
    writes nothing. *)
Theorem server_exception_story_needs_stored_token sr storage :
  expectAlert "internal server error" (story (preRender sr) storage) = true ∧
  LoginWithServerException_test (story (preRender sr) storage)
  = bool_decide (storage !! "token" = Some token).
Proof.
  split; [apply expectAlert_exception|].
  unfold LoginWithServerException_test, expectToken.
  by rewrite expectAlert_exception, story_exception_storage.
Qed.

(** X14.  The suite as written, the two stories in order on one page
    storage and then the teardown, passes on any initial storage, and
    leaves the storage as it found it, less the key 'token'. *)
Theorem suite_passes_and_cleans_up storage :
  suite storage = (true, delete "token" storage).
Proof.
  unfold suite, teardown, LoginWithValidCredentials_test, LoginWithServerException_test,
    expectToken.
  rewrite expectAlert_valid, expectAlert_exception.
  rewrite story_exception_storage, story_valid_storage, lookup_insert_eq, delete_insert_eq.
  by rewrite bool_decide_eq_true_2.
Qed.
